(** * Geometry and physics routines: a shallow embedding and its properties

    The development embeds three independent C++ programs:
    - [geometry/jarvis_algorithm.cpp]           (class [ConvexHull]),
    - [geometry/line_segment_intersection.cpp]  (class [SegmentIntersection]),
    - [physics/ground_to_ground_projectile_motion.cpp]
      (namespace [physics::ground_to_ground_projectile_motion]).

    Definitions come first, one module per class or namespace; the
    theorems follow. *)

From Stdlib Require Import ZArith List Bool Lia Arith PeanoNat.
From Stdlib Require Import Floats.SpecFloat.
Import ListNotations.

Local Open Scope Z_scope.

(** ** The C++ [int]

    Both geometry files compute with [int].  An [int] is modelled as a [Z]
    and every arithmetic operation is followed by the reduction to the
    32-bit two's complement range.  Signed overflow is undefined behaviour
    in C++; the wrap-around is what the usual targets produce.  A statement
    that relates the computed value to the integer it stands for carries an
    explicit no-overflow hypothesis. *)
Module Int32.

Definition min_int : Z := - 2 ^ 31.
Definition max_int : Z := 2 ^ 31 - 1.
Definition modulus : Z := 2 ^ 32.

Definition in_range (z : Z) : Prop := min_int <= z <= max_int.

Definition wrap (z : Z) : Z := (z + 2 ^ 31) mod modulus - 2 ^ 31.

Definition sub (a b : Z) : Z := wrap (a - b).
Definition mul (a b : Z) : Z := wrap (a * b).

End Int32.

(** ** [struct Point { int x, y; }]  (declared alike in both geometry files) *)
Record Point : Type := mkPoint { x : Z; y : Z }.

(** ** [class ConvexHull]  (jarvis_algorithm.cpp) *)
Module ConvexHull.

(** [points[i]].  [std::vector::operator[]] is unchecked; the model reads
    the origin out of range.  Every index [getHull] uses is below
    [points.size()] (lemma [ConvexHull_indices_in_range] below).  The
    [int] loop counters are modelled as [nat], which is exact for vectors
    of at most [INT_MAX] elements. *)
Definition pt (points : list Point) (i : nat) : Point :=
  nth i points (mkPoint 0 0).

(** The local [val] of [orientation]. *)
Definition orientation_val (p q r : Point) : Z :=
  Int32.sub (Int32.mul (Int32.sub (y q) (y p)) (Int32.sub (x r) (x q)))
            (Int32.mul (Int32.sub (x q) (x p)) (Int32.sub (y r) (y q))).

(** [return (val == 0) ? 0 : (val > 0) ? 1 : 2;] *)
Definition orientation (p q r : Point) : Z :=
  let val := orientation_val p q r in
  if val =? 0 then 0 else if val >? 0 then 1 else 2.

(** Body of the first loop:
    [if (points[i].x < points[leftmost].x) leftmost = i;] *)
Definition leftmost_step (points : list Point) (leftmost i : nat) : nat :=
  if x (pt points i) <? x (pt points leftmost) then i else leftmost.

(** [int leftmost = 0; for (int i = 1; i < points.size(); i++) ...] *)
Definition find_leftmost (points : list Point) : nat :=
  fold_left (leftmost_step points) (seq 1 (length points - 1)) 0%nat.

(** Body of the inner candidate loop:
    [if (orientation(points[p], points[i], points[q]) == 2) q = i;] *)
Definition candidate_step (points : list Point) (p q i : nat) : nat :=
  if orientation (pt points p) (pt points i) (pt points q) =? 2
  then i else q.

(** [q = (p + 1) % points.size(); for (int i = 0; i < points.size(); i++) ...] *)
Definition next_vertex (points : list Point) (p : nat) : nat :=
  fold_left (candidate_step points p) (seq 0 (length points))
            ((p + 1) mod length points)%nat.

(** The [do { ... } while (p != leftmost);] loop.  [fuel] bounds the
    number of executions of the body; [None] means the bound was reached
    with the loop still running. *)
Fixpoint march (fuel : nat) (points : list Point) (leftmost p : nat)
         (hull : list Point) : option (list Point) :=
  match fuel with
  | O => None
  | S fuel' =>
      let hull' := hull ++ [pt points p] in
      let q := next_vertex points p in
      if (q =? leftmost)%nat then Some hull'
      else march fuel' points leftmost q hull'
  end.

(** [std::vector<Point> getHull() const] *)
Definition getHull (fuel : nat) (points : list Point)
  : option (list Point) :=
  if (length points <? 3)%nat then Some []
  else
    let leftmost := find_leftmost points in
    march fuel points leftmost leftmost [].

(** The sequence of values taken by [p]: [p], then [next_vertex] of it,
    and so on. *)
Fixpoint visited (n : nat) (points : list Point) (p : nat) : list nat :=
  match n with
  | O => []
  | S n' => p :: visited n' points (next_vertex points p)
  end.

(** The spec's cross product, over the mathematical integers:
    [(q.y - p.y)*(r.x - q.x) - (q.x - p.x)*(r.y - q.y)]. *)
Definition cross (p q r : Point) : Z :=
  (y q - y p) * (x r - x q) - (x q - x p) * (y r - y q).


(** The vector of [test()] and its [expected] hull. *)
Definition test_points : list Point :=
  [mkPoint 0 3; mkPoint 2 2; mkPoint 1 1; mkPoint 2 1;
   mkPoint 3 0; mkPoint 0 0; mkPoint 3 3].

Definition test_expected : list Point :=
  [mkPoint 0 3; mkPoint 0 0; mkPoint 3 0; mkPoint 3 3].

(** Four distinct points, three of them on the line [x = 0]; the first
    one with least [x] lies between the other two. *)
Definition edge_start_points : list Point :=
  [mkPoint 0 1; mkPoint 0 2; mkPoint 0 0; mkPoint 2 0].

(** The value of [p] after [n] executions of the body of the do-while
    loop that starts at [p]. *)
Fixpoint walk (n : nat) (points : list Point) (p : nat) : nat :=
  match n with
  | O => p
  | S n' => walk n' points (next_vertex points p)
  end.

(** All input points lie on one line: the cross product of any three of
    them vanishes. *)
Definition all_collinear (points : list Point) : Prop :=
  forall a b c : Point,
    In a points -> In b points -> In c points -> cross a b c = 0.



(** The input from index [k] on, followed by the input before index [k]. *)
Definition rotate (k : nat) (points : list Point) : list Point :=
  skipn k points ++ firstn k points.

End ConvexHull.

(** ** [class SegmentIntersection]  (line_segment_intersection.cpp) *)
Module SegmentIntersection.

(** [return (r.y - p.y) * (q.x - p.x) - (r.x - p.x) * (q.y - p.y);] *)
Definition direction (p q r : Point) : Z :=
  Int32.sub (Int32.mul (Int32.sub (y r) (y p)) (Int32.sub (x q) (x p)))
            (Int32.mul (Int32.sub (x r) (x p)) (Int32.sub (y q) (y p))).

(** [std::min(p.x, q.x) <= r.x && r.x <= std::max(p.x, q.x) &&
     std::min(p.y, q.y) <= r.y && r.y <= std::max(p.y, q.y)] *)
Definition on_segment (p q r : Point) : bool :=
  (Z.min (x p) (x q) <=? x r) && (x r <=? Z.max (x p) (x q)) &&
  (Z.min (y p) (y q) <=? y r) && (y r <=? Z.max (y p) (y q)).

(** The condition of the first [if] of [intersect], token for token:
    [(d1 < 0 && d2 > 0) || (d1 > 0 && d2 < 0) &&
     (d3 < 0 && d4 > 0) || (d3 > 0 && d4 < 0)].
    As in C++, [&&] binds tighter than [||] and both associate to the
    left; the operands have no effects, so short-circuit evaluation is
    unobservable. *)
Definition general_case (d1 d2 d3 d4 : Z) : bool :=
  ((d1 <? 0) && (d2 >? 0)) || ((d1 >? 0) && (d2 <? 0)) &&
  ((d3 <? 0) && (d4 >? 0)) || ((d3 >? 0) && (d4 <? 0)).

(** The [return] statement that ends a call of [intersect]: the one of
    the general case, one of the four special cases, or the final
    [return false]. *)
Inductive exit : Type :=
| General
| Special1 | Special2 | Special3 | Special4
| Fallthrough.

Definition intersect_exit (p1 p2 p3 p4 : Point) : exit :=
  let d1 := direction p3 p4 p1 in
  let d2 := direction p3 p4 p2 in
  let d3 := direction p1 p2 p3 in
  let d4 := direction p1 p2 p4 in
  if general_case d1 d2 d3 d4 then General
  else if (d1 =? 0) && on_segment p3 p4 p1 then Special1
  else if (d2 =? 0) && on_segment p3 p4 p2 then Special2
  else if (d3 =? 0) && on_segment p1 p2 p3 then Special3
  else if (d4 =? 0) && on_segment p1 p2 p4 then Special4
  else Fallthrough.

(** [bool intersect(p1, p2, p3, p4)] *)
Definition intersect (p1 p2 p3 p4 : Point) : bool :=
  match intersect_exit p1 p2 p3 p4 with
  | Fallthrough => false
  | _ => true
  end.

(** The spec's general-position rule.  [straddle a b]: the two direction
    values have strictly opposite signs. *)
Definition straddle (a b : Z) : bool :=
  ((a <? 0) && (b >? 0)) || ((a >? 0) && (b <? 0)).

(** Opposite-sign direction pairs for both segments. *)
Definition opposite_sides_both (d1 d2 d3 d4 : Z) : bool :=
  straddle d1 d2 && straddle d3 d4.

(** The spec's reading of the source condition, fully parenthesised:
    [(d1<0 && d2>0) || ((d1>0 && d2<0) && (d3<0 && d4>0)) || (d3>0 && d4<0)]. *)
Definition general_case_parsed (d1 d2 d3 d4 : Z) : bool :=
  orb (orb (andb (d1 <? 0) (d2 >? 0))
           (andb (andb (d1 >? 0) (d2 <? 0)) (andb (d3 <? 0) (d4 >? 0))))
      (andb (d3 >? 0) (d4 <? 0)).

(** All four direction values are nonzero. *)
Definition general_position (p1 p2 p3 p4 : Point) : Prop :=
  direction p3 p4 p1 <> 0 /\ direction p3 p4 p2 <> 0 /\
  direction p1 p2 p3 <> 0 /\ direction p1 p2 p4 <> 0.

(** A vertical segment on the line [x = 0] and a horizontal segment on
    the line [y = 0] that lies to its right: they are disjoint. *)
Definition a1 : Point := mkPoint 0 (-1).
Definition a2 : Point := mkPoint 0 1.
Definition b1 : Point := mkPoint 1 0.
Definition b2 : Point := mkPoint 2 0.

(** The expression of [direction] over the mathematical integers. *)
Definition direction_Z (p q r : Point) : Z :=
  (y r - y p) * (x q - x p) - (x r - x p) * (y q - y p).

End SegmentIntersection.

(** ** [namespace physics::ground_to_ground_projectile_motion]

    The templates are taken at [T = double], as [test()] instantiates them.
    A [double] is an IEEE 754 binary64 value: a [spec_float] with precision
    53 and maximal exponent 1024, every operation rounding to nearest, ties
    to even.  [std::sin], [std::cos] and [std::pow] belong to the C library,
    not to this program: the functions take them as parameters. *)
Module ground_to_ground_projectile_motion.

Definition double : Type := spec_float.
Definition prec : Z := 53.
Definition emax : Z := 1024.

Definition fmul : double -> double -> double := SFmul prec emax.
Definition fdiv : double -> double -> double := SFdiv prec emax.

(** The [double] nearest to an integer literal. *)
Definition of_Z (z : Z) : double :=
  binary_normalize prec emax z 0 false.

(** A value of the type: canonical mantissa, exponent within bounds. *)
Definition is_double (v : double) : Prop := valid_binary prec emax v = true.

(** [std::isfinite]. *)
Definition is_finite (v : double) : bool :=
  match v with
  | S754_zero _ | S754_finite _ _ _ => true
  | _ => false
  end.

Definition zero : double := S754_zero false.
Definition one : double := Eval vm_compute in of_Z 1.
Definition two : double := Eval vm_compute in of_Z 2.

(** [a == b] and [a < b] on [double]. *)
Definition feqb : double -> double -> bool := SFeqb.
Definition fltb : double -> double -> bool := SFltb.

(** [M_PI], the [double] 0x1.921fb54442d18p+1. *)
Definition M_PI : double := S754_finite false 7074237752028440 (-51).

(** [constexpr double GRAVITY = 9.81;] *)
Definition GRAVITY : double :=
  Eval vm_compute in fdiv (of_Z 981) (of_Z 100).

(** [return degrees * (M_PI / 180.0);] *)
Definition degrees_to_radians (degrees : double) : double :=
  fmul degrees (fdiv M_PI (of_Z 180)).

Section Libm.

Variables sin cos : double -> double.
Variable pow : double -> double -> double.

(** [double Viy = initial_velocity * std::sin(degrees_to_radians(angle));
     return (2.0 * Viy) / gravity;] *)
Definition time_of_flight (initial_velocity angle gravity : double)
  : double :=
  let Viy := fmul initial_velocity (sin (degrees_to_radians angle)) in
  fdiv (fmul two Viy) gravity.

(** [double Vix = initial_velocity * std::cos(degrees_to_radians(angle));
     return Vix * time;] *)
Definition horizontal_range (initial_velocity angle time : double)
  : double :=
  let Vix := fmul initial_velocity (cos (degrees_to_radians angle)) in
  fmul Vix time.

(** [double Viy = initial_velocity * std::sin(degrees_to_radians(angle));
     return (std::pow(Viy, 2)) / (2.0 * gravity);] *)
Definition max_height (initial_velocity angle gravity : double)
  : double :=
  let Viy := fmul initial_velocity (sin (degrees_to_radians angle)) in
  fdiv (pow Viy two) (fmul two gravity).

End Libm.

(** Unary minus on [double].  [spec_float] has a single NaN, without
    sign bit or payload, and [fopp] leaves it as it is; the C++ operator
    flips the sign bit of a NaN.  On every other value [fopp] is the C++
    operator. *)
Definition fopp : double -> double := SFopp.

(** [std::isnan]. *)
Definition is_nan (a : double) : bool :=
  match a with
  | S754_nan => true
  | _ => false
  end.

(** [b] is [a] with the opposite sign; when [a] is a NaN, [b] is a NaN
    too and nothing is said of its sign bit. *)
Definition negated (a b : double) : Prop :=
  if is_nan a then is_nan b = true else b = fopp a.

End ground_to_ground_projectile_motion.

(** * Properties *)

(** ** Arithmetic on [int] *)

Lemma Int32_wrap_in_range (z : Z) :
  Int32.in_range z -> Int32.wrap z = z.
Proof.
  unfold Int32.in_range, Int32.wrap, Int32.min_int, Int32.max_int,
    Int32.modulus.
  intros Hz.
  rewrite Z.mod_small; lia.
Qed.

(** ** Convex hull *)

Section ConvexHullFacts.

Import ConvexHull.




Lemma fold_left_below {A : Type} (f : nat -> A -> nat) (n : nat) :
  forall (l : list A) (a : nat),
    (a < n)%nat ->
    (forall acc i, (acc < n)%nat -> In i l -> (f acc i < n)%nat) ->
    (fold_left f l a < n)%nat.
Proof.
  induction l as [| i l IH]; intros a Ha Hf; simpl.
  - exact Ha.
  - apply IH.
    + apply Hf; [exact Ha | now left].
    + intros acc j Hacc Hj. apply Hf; [exact Hacc | now right].
Qed.

Lemma find_leftmost_lt (points : list Point) :
  (0 < length points)%nat -> (find_leftmost points < length points)%nat.
Proof.
  intros Hn. unfold find_leftmost.
  apply fold_left_below; [exact Hn |].
  intros acc i Hacc Hi. unfold leftmost_step.
  apply in_seq in Hi.
  destruct (x (pt points i) <? x (pt points acc)); lia.
Qed.

Lemma next_vertex_lt (points : list Point) (p : nat) :
  (0 < length points)%nat -> (next_vertex points p < length points)%nat.
Proof.
  intros Hn. unfold next_vertex.
  apply fold_left_below.
  - apply Nat.mod_upper_bound. lia.
  - intros acc i Hacc Hi. unfold candidate_step.
    apply in_seq in Hi.
    destruct (orientation _ _ _ =? 2); lia.
Qed.

(** Every index that [getHull] passes to [points[...]] is in range. *)
Lemma ConvexHull_indices_in_range (points : list Point) :
  (0 < length points)%nat ->
  (find_leftmost points < length points)%nat /\
  (forall p, (next_vertex points p < length points)%nat) /\
  (forall n p, (p < length points)%nat ->
               Forall (fun i => (i < length points)%nat)
                      (visited n points p)).
Proof.
  intros Hn. split; [now apply find_leftmost_lt |].
  split; [intros p; now apply next_vertex_lt |].
  induction n as [| n IH]; intros p Hp; simpl.
  - constructor.
  - constructor; [exact Hp |]. apply IH. now apply next_vertex_lt.
Qed.

Lemma pt_In (points : list Point) (i : nat) :
  (i < length points)%nat -> In (pt points i) points.
Proof. intros Hi. unfold pt. now apply nth_In. Qed.

Lemma march_members (points : list Point) (leftmost : nat) :
  forall (fuel p : nat) (hull res : list Point),
    (p < length points)%nat ->
    Forall (fun h => In h points) hull ->
    march fuel points leftmost p hull = Some res ->
    Forall (fun h => In h points) res.
Proof.
  induction fuel as [| fuel IH]; intros p hull res Hp Hhull Hres;
    simpl in Hres.
  - discriminate.
  - assert (Hhull' : Forall (fun h => In h points) (hull ++ [pt points p])).
    { apply Forall_app. split; [exact Hhull |].
      constructor; [now apply pt_In | constructor]. }
    destruct (next_vertex points p =? leftmost)%nat.
    + injection Hres as <-. exact Hhull'.
    + apply (IH _ _ _ (next_vertex_lt points p ltac:(lia)) Hhull' Hres).
Qed.

(** More fuel does not change a result. *)
Lemma march_fuel_mono (points : list Point) (leftmost : nat) :
  forall (fuel k p : nat) (hull res : list Point),
    march fuel points leftmost p hull = Some res ->
    march (fuel + k) points leftmost p hull = Some res.
Proof.
  induction fuel as [| fuel IH]; intros k p hull res Hres; simpl in *.
  - discriminate.
  - destruct (next_vertex points p =? leftmost)%nat.
    + exact Hres.
    + now apply IH.
Qed.

(** On [edge_start_points] the walk, once on one of the indices 1, 2, 3,
    stays on them: 3 is followed by 1, 1 by 2 and 2 by 3. *)
Lemma edge_start_cycle (p : nat) :
  In p [1; 2; 3]%nat ->
  In (next_vertex edge_start_points p) [1; 2; 3]%nat /\
  next_vertex edge_start_points p <> 0%nat.
Proof.
  intros [<- | [<- | [<- | []]]]; vm_compute; split;
    solve [ intuition congruence | discriminate ].
Qed.

Lemma edge_start_march_none :
  forall (fuel p : nat) (hull : list Point),
    In p [1; 2; 3]%nat ->
    march fuel edge_start_points 0 p hull = None.
Proof.
  induction fuel as [| fuel IH]; intros p hull Hp; simpl.
  - reflexivity.
  - destruct (edge_start_cycle p Hp) as [Hin Hne].
    apply Nat.eqb_neq in Hne. rewrite Hne.
    now apply IH.
Qed.

End ConvexHullFacts.

Section ConvexHullClaims.

Import ConvexHull.

(** C2.  The claim says that [getHull] returns a result on every finite
    input.  On the four distinct points (0,1), (0,2), (0,0), (2,0) it does
    not: the start index is 0, the walk then visits the indices 3, 1, 2,
    3, 1, 2, ... and the exit test [p != leftmost] never fails, so no
    number of iterations makes [getHull] return. *)
Theorem getHull_edge_start_never_returns :
  find_leftmost edge_start_points = 0%nat /\
  visited 7 edge_start_points 0 = [0; 3; 1; 2; 3; 1; 2]%nat /\
  forall fuel : nat, getHull fuel edge_start_points = None.
Proof.
  split; [reflexivity |]. split; [reflexivity |].
  intros fuel. unfold getHull.
  change (length edge_start_points <? 3)%nat with false.
  change (find_leftmost edge_start_points) with 0%nat.
  cbv beta iota zeta.
  destruct fuel as [| fuel]; [reflexivity |].
  cbn [march].
  change (next_vertex edge_start_points 0) with 3%nat.
  change (3 =? 0)%nat with false. cbv iota.
  apply edge_start_march_none. simpl. tauto.
Qed.

(** C3.  Every point of the sequence returned by [getHull] is
    component-wise equal to a point of the input sequence. *)
Theorem getHull_members (fuel : nat) (points hull : list Point) :
  getHull fuel points = Some hull ->
  Forall (fun h => exists q, In q points /\ x h = x q /\ y h = y q) hull.
Proof.
  unfold getHull. intros H.
  destruct (length points <? 3)%nat eqn:Hlen.
  - injection H as <-. constructor.
  - apply Nat.ltb_ge in Hlen.
    assert (Hn : (0 < length points)%nat) by lia.
    pose proof (march_members points _ _ _ _ _
                  (find_leftmost_lt points Hn) (Forall_nil _) H) as Hall.
    eapply Forall_impl; [| exact Hall].
    intros h Hh. exists h. auto.
Qed.

Lemma getHull_members_witness :
  Forall (fun h => exists q, In q test_points /\ x h = x q /\ y h = y q)
         test_expected.
Proof.
  apply (getHull_members 4 test_points test_expected).
  reflexivity.
Defined.

(** C4.  On an input of fewer than 3 points (the empty one included)
    [getHull] returns the empty sequence. *)
Theorem getHull_fewer_than_3 (fuel : nat) (points : list Point) :
  (length points < 3)%nat -> getHull fuel points = Some [].
Proof.
  intros H. unfold getHull.
  apply Nat.ltb_lt in H. rewrite H. reflexivity.
Qed.

Lemma getHull_fewer_than_3_witness :
  getHull 0 [mkPoint 0 0; mkPoint 5 7] = Some [].
Proof.
  apply (getHull_fewer_than_3 0 [mkPoint 0 0; mkPoint 5 7]).
  simpl. lia.
Defined.

(** C5.  On the vector of [test()], (0,3), (2,2), (1,1), (2,1), (3,0),
    (0,0), (3,3), [getHull] returns exactly (0,3), (0,0), (3,0), (3,3) in
    that order, after four iterations of the outer loop; the first element
    is the start point (0,3), whose [x] is least in the input. *)
Theorem getHull_test_vector :
  (forall k : nat, getHull (4 + k) test_points = Some test_expected) /\
  test_expected = [mkPoint 0 3; mkPoint 0 0; mkPoint 3 0; mkPoint 3 3] /\
  pt test_points (find_leftmost test_points) = mkPoint 0 3 /\
  hd_error test_expected = Some (mkPoint 0 3) /\
  Forall (fun q => x (mkPoint 0 3) <= x q) test_points.
Proof.
  split.
  - intros k. unfold getHull.
    change (length test_points <? 3)%nat with false. cbv iota.
    apply march_fuel_mono. reflexivity.
  - split; [reflexivity |]. split; [reflexivity |]. split; [reflexivity |].
    unfold test_points. repeat constructor; simpl; lia.
Qed.






End ConvexHullClaims.

(** ** Segment intersection *)

Section SegmentIntersectionClaims.

Import SegmentIntersection.

(** The four direction values of [intersect a1 a2 b1 b2]. *)
Lemma directions_a_b :
  direction b1 b2 a1 = -1 /\ direction b1 b2 a2 = 1 /\
  direction a1 a2 b1 = -2 /\ direction a1 a2 b2 = -4.
Proof. repeat split; reflexivity. Qed.

(** The source condition holds whenever both pairs of direction values
    have strictly opposite signs; the converse is what fails. *)
Lemma opposite_sides_general_case (d1 d2 d3 d4 : Z) :
  opposite_sides_both d1 d2 d3 d4 = true -> general_case d1 d2 d3 d4 = true.
Proof.
  unfold opposite_sides_both, straddle, general_case.
  destruct (d1 <? 0), (d2 >? 0), (d1 >? 0), (d2 <? 0),
    (d3 <? 0), (d4 >? 0), (d3 >? 0), (d4 <? 0); simpl; congruence.
Qed.

Lemma intersect_exit_General (p1 p2 p3 p4 : Point) :
  intersect_exit p1 p2 p3 p4 = General <->
  general_case (direction p3 p4 p1) (direction p3 p4 p2)
               (direction p1 p2 p3) (direction p1 p2 p4) = true.
Proof.
  unfold intersect_exit.
  destruct (general_case _ _ _ _).
  - tauto.
  - split; [| discriminate].
    repeat match goal with
           | |- context [if ?b then _ else _] => destruct b
           end; discriminate.
Qed.

(** C1.  The claim says that in general position [intersect] returns true
    if and only if each segment's endpoints lie strictly on opposite sides
    of the other segment's line.  For the disjoint segments (0,-1)-(0,1)
    and (1,0)-(2,0) the direction values are -1, 1, -2, -4: all nonzero,
    the second pair of equal sign, and [intersect] returns true. *)
Theorem intersect_true_on_disjoint_segments :
  general_position a1 a2 b1 b2 /\
  Z.max (x a1) (x a2) < Z.min (x b1) (x b2) /\
  opposite_sides_both (direction b1 b2 a1) (direction b1 b2 a2)
                      (direction a1 a2 b1) (direction a1 a2 b2) = false /\
  intersect a1 a2 b1 b2 = true.
Proof.
  unfold general_position.
  destruct directions_a_b as (-> & -> & -> & ->).
  repeat split; try discriminate; reflexivity.
Qed.

(** C7.  The general-case exit of [intersect] is taken, and true
    returned there, exactly when
    [(d1<0 && d2>0) || ((d1>0 && d2<0) && (d3<0 && d4>0)) || (d3>0 && d4<0)]
    holds of the four direction values: the unparenthesised source
    condition is that expression, and it is not the conjunction of the two
    straddle tests (they differ at -1, 1, -2, -4). *)
Theorem general_case_is_parsed_expression (p1 p2 p3 p4 : Point) :
  let d1 := direction p3 p4 p1 in
  let d2 := direction p3 p4 p2 in
  let d3 := direction p1 p2 p3 in
  let d4 := direction p1 p2 p4 in
  general_case d1 d2 d3 d4 = general_case_parsed d1 d2 d3 d4 /\
  (general_case_parsed d1 d2 d3 d4 = true <->
   intersect_exit p1 p2 p3 p4 = General /\ intersect p1 p2 p3 p4 = true) /\
  general_case_parsed (-1) 1 (-2) (-4) = true /\
  opposite_sides_both (-1) 1 (-2) (-4) = false.
Proof.
  cbv zeta.
  split; [reflexivity |].
  split; [| split; reflexivity].
  change (general_case_parsed (direction p3 p4 p1) (direction p3 p4 p2)
            (direction p1 p2 p3) (direction p1 p2 p4))
    with (general_case (direction p3 p4 p1) (direction p3 p4 p2)
            (direction p1 p2 p3) (direction p1 p2 p4)).
  rewrite <- intersect_exit_General.
  split.
  - intros H. split; [exact H |]. unfold intersect. rewrite H. reflexivity.
  - intros [H _]. exact H.
Qed.

(** C8.  [intersect] on the segment (0,0)-(2,0) and the one-point segment
    (1,0)-(1,0) returns true: the general case does not apply, the
    direction value d3 of (1,0) against the first segment is zero and
    (1,0) lies in that segment's bounding box, which is the third special
    case. *)
Theorem intersect_point_on_segment :
  let p1 := mkPoint 0 0 in
  let p2 := mkPoint 2 0 in
  let p3 := mkPoint 1 0 in
  let p4 := mkPoint 1 0 in
  intersect p1 p2 p3 p4 = true /\
  intersect_exit p1 p2 p3 p4 = Special3 /\
  direction p1 p2 p3 = 0 /\
  on_segment p1 p2 p3 = true.
Proof. cbv zeta. repeat split; reflexivity. Qed.

(** C10.  The claim says that [intersect] gives the same answer when the
    two segments are exchanged.  For (0,-1)-(0,1) and (1,0)-(2,0) it
    returns true in one order and false in the other. *)
Theorem intersect_depends_on_segment_order :
  intersect a1 a2 b1 b2 = true /\ intersect b1 b2 a1 a2 = false.
Proof. split; reflexivity. Qed.

End SegmentIntersectionClaims.

(** ** Projectile motion *)

Section DoubleFacts.

Import ground_to_ground_projectile_motion.

(** Shifting the mantissa [2^52 * m] right by 52 or by 51 places loses no
    bit. *)
Lemma shr_52 (m : positive) :
  iter_pos shr_1 52
    {| shr_m := Zpos (4503599627370496 * m); shr_r := false; shr_s := false |}
  = {| shr_m := Zpos m; shr_r := false; shr_s := false |}.
Proof. cbv. reflexivity. Qed.

Lemma shr_51 (m : positive) :
  iter_pos shr_1 51
    {| shr_m := Zpos (4503599627370496 * m); shr_r := false; shr_s := false |}
  = {| shr_m := Zpos m~0; shr_r := false; shr_s := false |}.
Proof. cbv. reflexivity. Qed.

(** [2^52 * m] has 52 binary digits more than [m]. *)
Lemma digits2_shift_52 (m : positive) :
  Zpos (digits2_pos (4503599627370496 * m)) = Zpos (digits2_pos m) + 52.
Proof. cbn [Pos.mul digits2_pos]. lia. Qed.

(** The representation invariant of a finite [double], in arithmetic
    terms: the exponent is the canonical one and at most 971. *)
Lemma is_double_finite (s : bool) (m : positive) (e : Z) :
  is_double (S754_finite s m e) ->
  Z.max (Zpos (digits2_pos m) + e - 53) (-1074) = e /\ e <= 971.
Proof.
  unfold is_double, valid_binary, bounded, canonical_mantissa, fexp, emin,
    prec, emax.
  intros H. apply andb_true_iff in H as [H1 H2].
  apply Z.eqb_eq in H1. apply Z.leb_le in H2.
  split; [exact H1 | exact H2].
Qed.

(** A mantissa that is canonical for its exponent is not shifted. *)
Lemma shr_fexp_exact (m : positive) (e : Z) :
  Z.max (Zpos (digits2_pos m) + e - 53) (-1074) = e ->
  shr_fexp prec emax (Zpos m) e loc_Exact =
  ({| shr_m := Zpos m; shr_r := false; shr_s := false |}, e).
Proof.
  intros H. unfold shr_fexp, fexp, emin, prec, emax, Zdigits2, shr_record_of_loc.
  replace (Z.max (Zpos (digits2_pos m) + e - 53) (3 - 1024 - 53) - e) with 0 by lia.
  reflexivity.
Qed.

(** [v * 1.0] is [v]. *)
Lemma fmul_one_r (v : double) :
  is_double v -> is_finite v = true -> fmul v one = v.
Proof.
  intros Hd Hf. destruct v as [s | s | | s m e]; try discriminate.
  - unfold fmul, one. simpl. now rewrite xorb_false_r.
  - destruct (is_double_finite _ _ _ Hd) as [Hc Hb].
    unfold fmul, one, SFmul, binary_round_aux.
    rewrite xorb_false_r, Pos.mul_comm.
    unfold shr_fexp at 1.
    unfold Zdigits2. rewrite digits2_shift_52.
    unfold fexp, emin, prec, emax, shr_record_of_loc.
    replace (Z.max (Zpos (digits2_pos m) + 52 + (e + -52) - 53) (3 - 1024 - 53) - (e + -52)) with 52 by lia.
    unfold shr. rewrite shr_52.
    cbn [shr_m loc_of_shr_record round_nearest_even].
    replace (e + -52 + 52) with e by lia.
    change (shr_fexp 53 1024) with (shr_fexp prec emax).
    rewrite (shr_fexp_exact m e Hc).
    cbn [shr_m].
    apply Z.leb_le in Hb. change (1024 - 53) with 971. rewrite Hb. reflexivity.
Qed.

(** A positive [double]: positive finite or plus infinity. *)
Lemma positive_double (g : double) :
  fltb zero g = true ->
  g = S754_infinity false \/ exists m e, g = S754_finite false m e.
Proof.
  destruct g as [s | s | | s m e]; unfold fltb, SFltb, zero; simpl;
    try discriminate.
  - destruct s; [discriminate | now left].
  - destruct s; [discriminate | right; now exists m, e].
Qed.

(** [2.0 * gravity] is positive when [gravity] is: the product is exact,
    or overflows to plus infinity. *)
Lemma fmul_two_positive (g : double) :
  is_double g -> fltb zero g = true -> fltb zero (fmul two g) = true.
Proof.
  intros Hd Hpos.
  destruct (positive_double g Hpos) as [-> | (m & e & ->)].
  - reflexivity.
  - destruct (is_double_finite _ _ _ Hd) as [Hc Hb].
    unfold fmul, two, SFmul, binary_round_aux.
    unfold shr_fexp at 1.
    unfold Zdigits2. rewrite digits2_shift_52.
    unfold fexp, emin, prec, emax, shr_record_of_loc.
    cbn [xorb].
    assert (Hn : Z.max (Zpos (digits2_pos m) + 52 + (-51 + e) - 53)
                       (3 - 1024 - 53) - (-51 + e) = 52 \/
                 Z.max (Zpos (digits2_pos m) + 52 + (-51 + e) - 53)
                       (3 - 1024 - 53) - (-51 + e) = 51) by lia.
    destruct Hn as [Hn | Hn]; rewrite Hn; unfold shr.
    + rewrite shr_52.
      cbn [shr_m loc_of_shr_record round_nearest_even].
      change (shr_fexp 53 1024) with (shr_fexp prec emax).
      rewrite shr_fexp_exact by lia.
      cbn [shr_m].
      destruct (-51 + e + 52 <=? 1024 - 53); reflexivity.
    + rewrite shr_51.
      cbn [shr_m loc_of_shr_record round_nearest_even].
      change (shr_fexp 53 1024) with (shr_fexp prec emax).
      rewrite shr_fexp_exact by (cbn [digits2_pos]; lia).
      cbn [shr_m].
      destruct (-51 + e + 51 <=? 1024 - 53); reflexivity.
Qed.

(** A finite value times a zero is a zero. *)
Lemma fmul_finite_zero (v : double) (s : bool) :
  is_finite v = true -> exists s', fmul v (S754_zero s) = S754_zero s'.
Proof.
  destruct v as [sv | sv | | sv m e]; try discriminate; intros _;
    unfold fmul; simpl; eauto.
Qed.

Lemma fmul_two_zero (s : bool) : fmul two (S754_zero s) = S754_zero s.
Proof. reflexivity. Qed.

(** A zero divided by a positive value is that zero. *)
Lemma fdiv_zero_positive (s : bool) (g : double) :
  fltb zero g = true -> fdiv (S754_zero s) g = S754_zero s.
Proof.
  intros Hpos.
  destruct (positive_double g Hpos) as [-> | (m & e & ->)];
    unfold fdiv; simpl; now rewrite xorb_false_r.
Qed.

(** [M_PI / 180.0] is finite and positive, so zero degrees are zero
    radians. *)
Lemma degrees_to_radians_zero (s : bool) :
  degrees_to_radians (S754_zero s) = S754_zero s.
Proof.
  unfold degrees_to_radians.
  replace (fdiv M_PI (of_Z 180))
    with (S754_finite false 5030569068109113 (-58)) by (vm_compute; reflexivity).
  unfold fmul. simpl. now rewrite xorb_false_r.
Qed.

Lemma feqb_zero (s : bool) : feqb (S754_zero s) zero = true.
Proof. reflexivity. Qed.

End DoubleFacts.

Section ProjectileClaims.

Import ground_to_ground_projectile_motion.

(** What the C library guarantees at zero (ISO C, Annex F): [sin] of a
    zero is that zero, [cos] of a zero is 1, and [pow] of a zero to the
    power 2 is plus zero. *)
Variables sin cos : double -> double.
Variable pow : double -> double -> double.
Hypothesis sin_zero : forall s : bool, sin (S754_zero s) = S754_zero s.
Hypothesis cos_zero : forall s : bool, cos (S754_zero s) = one.
Hypothesis pow_zero_two : forall s : bool, pow (S754_zero s) two = zero.

(** C9.  At launch angle 0 degrees, for every finite initial velocity and
    every positive gravity, [time_of_flight] and [max_height] return 0,
    and [horizontal_range] with time 0 returns 0.  "Returns 0" is the
    comparison [== 0] of [double]: for a negative velocity the zero
    returned by [time_of_flight] and [horizontal_range] is the negative
    zero. *)
Theorem zero_angle_gives_zero (initial_velocity gravity : double) :
  is_double initial_velocity -> is_finite initial_velocity = true ->
  is_double gravity -> fltb zero gravity = true ->
  feqb (time_of_flight sin initial_velocity zero gravity) zero = true /\
  feqb (max_height sin pow initial_velocity zero gravity) zero = true /\
  feqb (horizontal_range cos initial_velocity zero zero) zero = true.
Proof.
  intros Hv Hfin Hg Hpos.
  unfold time_of_flight, max_height, horizontal_range, zero.
  rewrite degrees_to_radians_zero, sin_zero, cos_zero.
  destruct (fmul_finite_zero initial_velocity false Hfin) as [s' Hs'].
  rewrite Hs', fmul_two_zero, pow_zero_two.
  rewrite (fdiv_zero_positive s' gravity Hpos).
  unfold zero.
  rewrite (fdiv_zero_positive false _ (fmul_two_positive gravity Hg Hpos)).
  rewrite (fmul_one_r initial_velocity Hv Hfin), Hs'.
  repeat split; apply feqb_zero.
Qed.

End ProjectileClaims.

Section ProjectileWitness.

Import ground_to_ground_projectile_motion.

Lemma zero_angle_gives_zero_witness :
  feqb (time_of_flight (fun a => a) (of_Z 5) zero GRAVITY) zero = true /\
  feqb (max_height (fun a => a) (fun a _ => fmul a a) (of_Z 5) zero GRAVITY)
       zero = true /\
  feqb (horizontal_range (fun _ => one) (of_Z 5) zero zero) zero = true.
Proof.
  apply (zero_angle_gives_zero
           (fun a => a) (fun _ => one) (fun a _ => fmul a a)).
  - intros s. reflexivity.
  - intros s. reflexivity.
  - intros s. destruct s; reflexivity.
  - vm_compute. reflexivity.
  - reflexivity.
  - vm_compute. reflexivity.
  - reflexivity.
Defined.

End ProjectileWitness.

(** * Further properties *)

(** ** Arithmetic on [int], modulo [2^32] *)

Lemma Int32_wrap_mod (z : Z) :
  Int32.wrap z mod Int32.modulus = z mod Int32.modulus.
Proof.
  unfold Int32.wrap, Int32.modulus.
  replace ((z + 2 ^ 31) mod 2 ^ 32 - 2 ^ 31)
    with ((z + 2 ^ 31) mod 2 ^ 32 + - 2 ^ 31) by lia.
  rewrite Zplus_mod_idemp_l. f_equal. lia.
Qed.

Lemma Int32_wrap_congr (a b : Z) :
  a mod Int32.modulus = b mod Int32.modulus -> Int32.wrap a = Int32.wrap b.
Proof.
  intros H. unfold Int32.wrap. f_equal.
  rewrite <- (Zplus_mod_idemp_l a), <- (Zplus_mod_idemp_l b).
  now rewrite H.
Qed.

Lemma Int32_sub_wrap (a b : Z) :
  Int32.sub (Int32.wrap a) (Int32.wrap b) = Int32.wrap (a - b).
Proof.
  unfold Int32.sub. apply Int32_wrap_congr.
  rewrite Zminus_mod, !Int32_wrap_mod, <- Zminus_mod. reflexivity.
Qed.

Lemma Int32_mul_wrap (a b : Z) :
  Int32.mul (Int32.wrap a) (Int32.wrap b) = Int32.wrap (a * b).
Proof.
  unfold Int32.mul. apply Int32_wrap_congr.
  rewrite Zmult_mod, !Int32_wrap_mod, <- Zmult_mod. reflexivity.
Qed.

Lemma Int32_wrap_0 : Int32.wrap 0 = 0.
Proof. reflexivity. Qed.

Section ConvexHullMore.

Import ConvexHull.

(** With or without overflow, the local [val] of [orientation] is the
    cross product reduced to the range of [int]. *)
Lemma orientation_val_wrap (p q r : Point) :
  orientation_val p q r = Int32.wrap (cross p q r).
Proof.
  unfold orientation_val, cross.
  unfold Int32.sub at 2 3 4 5.
  rewrite !Int32_mul_wrap, Int32_sub_wrap. reflexivity.
Qed.

Lemma orientation_collinear (p q r : Point) :
  cross p q r = 0 -> orientation p q r = 0.
Proof.
  intros H. unfold orientation.
  rewrite orientation_val_wrap, H. reflexivity.
Qed.

(** *** The first loop: the start index *)

Lemma leftmost_fold (points : list Point) :
  forall (b a acc : nat),
    (acc < a)%nat ->
    (forall i, (i < a)%nat -> x (pt points acc) <= x (pt points i)) ->
    (forall i, (i < acc)%nat -> x (pt points acc) < x (pt points i)) ->
    let r := fold_left (leftmost_step points) (seq a b) acc in
    (r < a + b)%nat /\
    (forall i, (i < a + b)%nat -> x (pt points r) <= x (pt points i)) /\
    (forall i, (i < r)%nat -> x (pt points r) < x (pt points i)).
Proof.
  induction b as [| b IH]; intros a acc Hacc Hmin Hfirst; simpl.
  - rewrite Nat.add_0_r. auto.
  - replace (a + S b)%nat with (S a + b)%nat by lia.
    apply IH; unfold leftmost_step;
      destruct (Z.ltb_spec (x (pt points a)) (x (pt points acc))) as [L | L].
    + lia.
    + lia.
    + intros i Hi. destruct (Nat.eq_dec i a) as [-> | Hne]; [lia |].
      specialize (Hmin i ltac:(lia)). lia.
    + intros i Hi. destruct (Nat.eq_dec i a) as [-> | Hne]; [lia |].
      apply Hmin. lia.
    + intros i Hi. specialize (Hmin i Hi). lia.
    + exact Hfirst.
Qed.

(** X1.  On a non-empty input the start index computed by the first loop
    of [getHull] is in range, its point has the least [x] of the input,
    and every point before it has a strictly greater [x]: among the
    points of least [x] the first one is chosen. *)
Theorem find_leftmost_first_min (points : list Point) :
  (0 < length points)%nat ->
  (find_leftmost points < length points)%nat /\
  (forall i, (i < length points)%nat ->
             x (pt points (find_leftmost points)) <= x (pt points i)) /\
  (forall i, (i < find_leftmost points)%nat ->
             x (pt points (find_leftmost points)) < x (pt points i)).
Proof.
  intros Hn. unfold find_leftmost.
  pose proof (leftmost_fold points (length points - 1) 1 0) as H.
  replace (1 + (length points - 1))%nat with (length points) in H by lia.
  apply H.
  - lia.
  - intros i Hi. replace i with 0%nat by lia. lia.
  - intros i Hi. lia.
Qed.

Lemma find_leftmost_first_min_witness :
  (find_leftmost test_points < length test_points)%nat /\
  (forall i, (i < length test_points)%nat ->
             x (pt test_points (find_leftmost test_points))
             <= x (pt test_points i)) /\
  (forall i, (i < find_leftmost test_points)%nat ->
             x (pt test_points (find_leftmost test_points))
             < x (pt test_points i)).
Proof.
  apply (find_leftmost_first_min test_points).
  simpl. lia.
Defined.


(** *** The do-while loop as a walk over indices *)

Lemma walk_add (points : list Point) :
  forall (a b p : nat),
    walk (a + b) points p = walk b points (walk a points p).
Proof.
  induction a as [| a IH]; intros b p; simpl.
  - reflexivity.
  - apply IH.
Qed.

Lemma walk_S (points : list Point) (n p : nat) :
  walk (S n) points p = next_vertex points (walk n points p).
Proof.
  replace (S n) with (n + 1)%nat by lia.
  rewrite walk_add. reflexivity.
Qed.

Lemma walk_lt (points : list Point) :
  forall (n p : nat),
    (p < length points)%nat -> (walk n points p < length points)%nat.
Proof.
  induction n as [| n IH]; intros p Hp; simpl.
  - exact Hp.
  - apply IH. apply next_vertex_lt. lia.
Qed.

Lemma visited_length (points : list Point) :
  forall (n p : nat), length (visited n points p) = n.
Proof.
  induction n as [| n IH]; intros p; simpl; [reflexivity | now rewrite IH].
Qed.

Lemma visited_In (points : list Point) :
  forall (n p i : nat),
    In i (visited n points p) <->
    exists j, (j < n)%nat /\ i = walk j points p.
Proof.
  induction n as [| n IH]; intros p i; simpl.
  - split; [intros [] | intros (j & Hj & _); lia].
  - rewrite IH. split.
    + intros [<- | (j & Hj & ->)].
      * exists 0%nat. split; [lia | reflexivity].
      * exists (S j). split; [lia | reflexivity].
    + intros (j & Hj & ->). destruct j as [| j].
      * now left.
      * right. exists j. split; [lia | reflexivity].
Qed.

Lemma visited_NoDup (points : list Point) :
  forall (n p : nat),
    (forall i j, (i < j < n)%nat -> walk i points p <> walk j points p) ->
    NoDup (visited n points p).
Proof.
  induction n as [| n IH]; intros p Hinj; simpl.
  - constructor.
  - constructor.
    + rewrite visited_In. intros (j & Hj & Heq).
      apply (Hinj 0%nat (S j)); [lia | exact Heq].
    + apply IH. intros i j Hij.
      apply (Hinj (S i) (S j)). lia.
Qed.

(** [march] returns exactly when the walk comes back to [leftmost], and
    then it returns the points at the indices visited up to there. *)
Lemma march_Some_inv (points : list Point) (leftmost : nat) :
  forall (fuel p : nat) (hull res : list Point),
    march fuel points leftmost p hull = Some res ->
    exists k,
      (k < fuel)%nat /\
      (forall j, (1 <= j <= k)%nat -> walk j points p <> leftmost) /\
      walk (S k) points p = leftmost /\
      res = hull ++ map (pt points) (visited (S k) points p).
Proof.
  induction fuel as [| fuel IH]; intros p hull res H; simpl in H.
  - discriminate.
  - destruct (Nat.eqb_spec (next_vertex points p) leftmost) as [E | E].
    + injection H as <-. exists 0%nat.
      repeat split; [lia | intros j Hj; lia | exact E].
    + apply IH in H as (k & Hk & Hne & Hret & ->).
      exists (S k). repeat split.
      * lia.
      * intros j Hj. destruct j as [| j]; [lia |].
        destruct j as [| j]; [exact E |].
        apply (Hne (S j)). lia.
      * exact Hret.
      * rewrite <- app_assoc. reflexivity.
Qed.

Lemma march_complete (points : list Point) (leftmost : nat) :
  forall (k fuel p : nat) (hull : list Point),
    (k < fuel)%nat ->
    (forall j, (1 <= j <= k)%nat -> walk j points p <> leftmost) ->
    walk (S k) points p = leftmost ->
    march fuel points leftmost p hull =
      Some (hull ++ map (pt points) (visited (S k) points p)).
Proof.
  induction k as [| k IH]; intros fuel p hull Hk Hne Hret;
    (destruct fuel as [| fuel]; [lia |]); simpl.
  - simpl in Hret. apply Nat.eqb_eq in Hret. rewrite Hret. reflexivity.
  - assert (E : next_vertex points p <> leftmost)
      by (apply (Hne 1%nat); lia).
    apply Nat.eqb_neq in E. rewrite E.
    rewrite (IH fuel (next_vertex points p)).
    + rewrite <- app_assoc. reflexivity.
    + lia.
    + intros j Hj. apply (Hne (S j)). lia.
    + exact Hret.
Qed.

(** Until the walk is back at its start it takes no index twice. *)
Lemma first_return_injective (points : list Point) (l k : nat) :
  (forall j, (1 <= j <= k)%nat -> walk j points l <> l) ->
  walk (S k) points l = l ->
  forall i j, (i < j < S k)%nat -> walk i points l <> walk j points l.
Proof.
  intros Hne Hret i j Hij Heq.
  apply (Hne (i + (S k - j))%nat); [lia |].
  rewrite walk_add, Heq, <- walk_add.
  replace (j + (S k - j))%nat with (S k) by lia.
  exact Hret.
Qed.

Lemma visited_below (points : list Point) (n p : nat) :
  (p < length points)%nat ->
  incl (visited n points p) (seq 0 (length points)).
Proof.
  intros Hp i Hi. apply visited_In in Hi as (j & _ & ->).
  apply in_seq. split; [lia |]. simpl. now apply walk_lt.
Qed.

(** The shape of a result of [getHull] on at least three points. *)
Lemma getHull_shape (fuel : nat) (points hull : list Point) :
  (3 <= length points)%nat ->
  getHull fuel points = Some hull ->
  exists k,
    (k < fuel)%nat /\ (S k <= length points)%nat /\
    (forall j, (1 <= j <= k)%nat ->
               walk j points (find_leftmost points) <> find_leftmost points) /\
    walk (S k) points (find_leftmost points) = find_leftmost points /\
    NoDup (visited (S k) points (find_leftmost points)) /\
    hull = map (pt points) (visited (S k) points (find_leftmost points)).
Proof.
  intros Hn H. unfold getHull in H.
  apply Nat.ltb_ge in Hn as Hlen. rewrite Hlen in H.
  apply march_Some_inv in H as (k & Hk & Hne & Hret & ->).
  assert (Hnd : NoDup (visited (S k) points (find_leftmost points))).
  { apply visited_NoDup. now apply first_return_injective. }
  exists k. repeat split; try assumption.
  pose proof (NoDup_incl_length Hnd
                (visited_below points (S k) (find_leftmost points)
                   (find_leftmost_lt points ltac:(lia)))) as Hle.
  now rewrite visited_length, length_seq in Hle.
Qed.


(** [points.size()] iterations are enough whenever any number is. *)
Lemma getHull_size_suffices (fuel : nat) (points hull : list Point) :
  getHull fuel points = Some hull ->
  (length hull <= length points)%nat /\
  getHull (length points) points = Some hull.
Proof.
  intros H.
  destruct (Nat.ltb_spec (length points) 3) as [Hlt | Hge].
  - apply Nat.ltb_lt in Hlt. unfold getHull in *. rewrite Hlt in *.
    injection H as <-. simpl. split; [lia | reflexivity].
  - destruct (getHull_shape fuel points hull Hge H)
      as (k & Hk & Hkn & Hne & Hret & _ & ->).
    split.
    + now rewrite length_map, visited_length.
    + unfold getHull. apply Nat.ltb_ge in Hge. rewrite Hge.
      now apply (march_complete points _ k (length points) _ []).
Qed.

(** X2.  When [getHull] returns on at least three points, the hull is
    made of the input points at pairwise distinct indices, the first of
    which is the start index: the hull is not empty and begins with the
    first point of least [x]. *)
Theorem getHull_distinct_indices (fuel : nat) (points hull : list Point) :
  (3 <= length points)%nat ->
  getHull fuel points = Some hull ->
  exists idx : list nat,
    hull = map (pt points) idx /\
    NoDup idx /\
    Forall (fun i => (i < length points)%nat) idx /\
    hd_error idx = Some (find_leftmost points) /\
    hd_error hull = Some (pt points (find_leftmost points)).
Proof.
  intros Hn H.
  destruct (getHull_shape fuel points hull Hn H)
    as (k & _ & _ & _ & _ & Hnd & ->).
  exists (visited (S k) points (find_leftmost points)).
  repeat split; try assumption; try reflexivity.
  apply Forall_forall. intros i Hi.
  apply (visited_below points (S k) (find_leftmost points)
           (find_leftmost_lt points ltac:(lia))) in Hi.
  apply in_seq in Hi. lia.
Qed.

Lemma getHull_distinct_indices_witness :
  exists idx : list nat,
    test_expected = map (pt test_points) idx /\
    NoDup idx /\
    Forall (fun i => (i < length test_points)%nat) idx /\
    hd_error idx = Some (find_leftmost test_points) /\
    hd_error test_expected = Some (pt test_points (find_leftmost test_points)).
Proof.
  apply (getHull_distinct_indices 4 test_points test_expected).
  - simpl. lia.
  - reflexivity.
Defined.

(** X3.  A hull returned by [getHull] has at most [points.size()] points,
    and the do-while loop has ended after at most [points.size()]
    iterations. *)
Theorem getHull_at_most_size (fuel : nat) (points hull : list Point) :
  getHull fuel points = Some hull ->
  (length hull <= length points)%nat /\
  getHull (length points) points = Some hull.
Proof. apply getHull_size_suffices. Qed.

Lemma getHull_at_most_size_witness :
  (length test_expected <= length test_points)%nat /\
  getHull (length test_points) test_points = Some test_expected.
Proof.
  apply (getHull_at_most_size 4 test_points test_expected).
  reflexivity.
Defined.

(** X4.  If the do-while loop of [getHull] is still running after
    [points.size()] iterations, it runs for ever. *)
Theorem getHull_runs_for_ever (points : list Point) :
  getHull (length points) points = None ->
  forall fuel : nat, getHull fuel points = None.
Proof.
  intros Hnone fuel.
  destruct (getHull fuel points) as [hull |] eqn:H; [| reflexivity].
  apply getHull_size_suffices in H as [_ H].
  congruence.
Qed.

Lemma getHull_runs_for_ever_witness :
  getHull 1000 edge_start_points = None.
Proof.
  apply (getHull_runs_for_ever edge_start_points).
  reflexivity.
Defined.

(** *** Collinear and duplicate points *)

Lemma fold_left_fixed {A : Type} (f : nat -> A -> nat) (a : nat) :
  forall l : list A,
    (forall i, In i l -> f a i = a) -> fold_left f l a = a.
Proof.
  induction l as [| i l IH]; intros H; simpl.
  - reflexivity.
  - rewrite (H i (or_introl eq_refl)). apply IH.
    intros j Hj. apply H. now right.
Qed.

Lemma next_vertex_collinear (points : list Point) (p : nat) :
  all_collinear points -> (p < length points)%nat ->
  next_vertex points p = ((p + 1) mod length points)%nat.
Proof.
  intros Hcol Hp. unfold next_vertex.
  apply fold_left_fixed. intros i Hi. apply in_seq in Hi.
  unfold candidate_step.
  rewrite orientation_collinear; [reflexivity |].
  apply Hcol; apply pt_In; try lia.
  apply Nat.mod_upper_bound. lia.
Qed.

Lemma map_pt_seq (points : list Point) (a b : nat) :
  (a + b <= length points)%nat ->
  map (pt points) (seq a b) = firstn b (skipn a points).
Proof.
  intros H.
  apply (nth_ext _ _ (pt points 0) (mkPoint 0 0)).
  - rewrite length_map, length_seq, length_firstn, length_skipn. lia.
  - intros i Hi. rewrite length_map, length_seq in Hi.
    rewrite (map_nth (pt points)), seq_nth by exact Hi.
    rewrite nth_firstn.
    apply Nat.ltb_lt in Hi as Hi'. rewrite Hi'.
    rewrite nth_skipn. reflexivity.
Qed.

Section CollinearWalk.

Variable points : list Point.
Hypothesis next_is_successor :
  forall p, (p < length points)%nat ->
            next_vertex points p = ((p + 1) mod length points)%nat.

Lemma march_run (l : nat) :
  forall (d fuel p : nat) (hull : list Point),
    (p + d < length points)%nat ->
    (forall j, (p < j <= p + d)%nat -> j <> l) ->
    march (d + fuel) points l p hull =
    march fuel points l (p + d) (hull ++ map (pt points) (seq p d)).
Proof.
  induction d as [| d IH]; intros fuel p hull Hd Hne.
  - simpl. now rewrite Nat.add_0_r, app_nil_r.
  - cbn [Nat.add march].
    rewrite next_is_successor by lia.
    rewrite Nat.mod_small by lia.
    assert (E : (p + 1)%nat <> l) by (apply Hne; lia).
    apply Nat.eqb_neq in E. rewrite E.
    rewrite (IH fuel (p + 1)%nat) by (try lia; intros j Hj; apply Hne; lia).
    replace (p + 1 + d)%nat with (p + S d)%nat by lia.
    rewrite <- app_assoc. cbn [seq map app].
    replace (S p) with (p + 1)%nat by lia. reflexivity.
Qed.

Lemma march_run_return (l d fuel p : nat) (hull : list Point) :
  (p + d < length points)%nat ->
  (forall j, (p < j <= p + d)%nat -> j <> l) ->
  ((p + d + 1) mod length points)%nat = l ->
  march (d + S fuel) points l p hull =
  Some (hull ++ map (pt points) (seq p (S d))).
Proof.
  intros Hd Hne Hret.
  rewrite march_run by assumption.
  cbn [march]. rewrite next_is_successor by lia.
  rewrite Hret, Nat.eqb_refl.
  rewrite <- app_assoc, seq_S, map_app. reflexivity.
Qed.

Lemma march_run_wrap (l d fuel p : nat) (hull : list Point) :
  (p + d + 1 = length points)%nat ->
  (forall j, (p < j <= p + d)%nat -> j <> l) ->
  l <> 0%nat ->
  march (d + S fuel) points l p hull =
  march fuel points l 0 (hull ++ map (pt points) (seq p (S d))).
Proof.
  intros Hd Hne Hl.
  rewrite march_run by (try assumption; lia).
  cbn [march]. rewrite next_is_successor by lia.
  rewrite Hd, Nat.Div0.mod_same.
  assert (E : (0 =? l)%nat = false) by (apply Nat.eqb_neq; lia).
  rewrite E.
  rewrite <- app_assoc, seq_S, map_app. reflexivity.
Qed.

Lemma march_all_points (l k : nat) :
  (0 < length points)%nat -> (l < length points)%nat ->
  march (length points + k) points l l [] = Some (rotate l points).
Proof.
  intros Hn Hl. unfold rotate.
  destruct (Nat.eq_dec l 0) as [-> | Hl0].
  - replace (length points + k)%nat
      with ((length points - 1) + S k)%nat by lia.
    rewrite march_run_return.
    + cbn [app Nat.add skipn firstn].
      replace (S (length points - 1)) with (length points) by lia.
      rewrite map_pt_seq by lia.
      cbn [skipn]. rewrite firstn_all2 by lia. now rewrite app_nil_r.
    + lia.
    + intros j Hj. lia.
    + replace (0 + (length points - 1) + 1)%nat with (length points) by lia.
      apply Nat.Div0.mod_same.
  - replace (length points + k)%nat
      with ((length points - 1 - l) + S ((l - 1) + S k))%nat by lia.
    rewrite march_run_wrap by (try lia; intros j Hj; lia).
    rewrite march_run_return.
    + cbn [app Nat.add].
      replace (S (length points - 1 - l)) with (length points - l)%nat by lia.
      replace (S (l - 1)) with l by lia.
      rewrite !map_pt_seq by lia.
      cbn [skipn].
      rewrite firstn_all2 by (rewrite length_skipn; lia). reflexivity.
    + lia.
    + intros j Hj. lia.
    + replace (0 + (l - 1) + 1)%nat with l by lia.
      apply Nat.mod_small. lia.
Qed.

End CollinearWalk.

(** X5.  On an input of at least three points that all lie on one line
    (duplicates included) [getHull] returns after exactly [points.size()]
    iterations, and the hull is the whole input: the points from the
    start index to the end, then the points before the start index. *)
Theorem getHull_all_collinear (points : list Point) :
  all_collinear points -> (3 <= length points)%nat ->
  (forall k : nat,
     getHull (length points + k) points =
       Some (rotate (find_leftmost points) points)) /\
  getHull (length points - 1) points = None.
Proof.
  intros Hcol Hn.
  assert (Hnext : forall p, (p < length points)%nat ->
            next_vertex points p = ((p + 1) mod length points)%nat)
    by (intros p Hp; now apply next_vertex_collinear).
  assert (Hl : (find_leftmost points < length points)%nat)
    by (apply find_leftmost_lt; lia).
  assert (Hsome : forall k, getHull (length points + k) points =
                            Some (rotate (find_leftmost points) points)).
  { intros k. unfold getHull. apply Nat.ltb_ge in Hn as Hlen. rewrite Hlen.
    apply march_all_points; [exact Hnext | lia | exact Hl]. }
  split; [exact Hsome |].
  destruct (getHull (length points - 1) points) as [hull |] eqn:H;
    [| reflexivity].
  exfalso.
  destruct (getHull_shape _ _ _ Hn H) as (j & Hj & _ & _ & _ & _ & Hhull).
  apply (f_equal (@length Point)) in Hhull.
  rewrite length_map, visited_length in Hhull.
  apply getHull_size_suffices in H as [_ H].
  specialize (Hsome 0%nat). rewrite Nat.add_0_r, H in Hsome.
  injection Hsome as ->. unfold rotate in Hhull.
  rewrite length_app, length_skipn, length_firstn in Hhull. lia.
Qed.

Lemma getHull_all_collinear_witness :
  (forall k : nat,
     getHull (3 + k) [mkPoint 1 0; mkPoint 0 0; mkPoint 2 0] =
       Some [mkPoint 0 0; mkPoint 2 0; mkPoint 1 0]) /\
  getHull 2 [mkPoint 1 0; mkPoint 0 0; mkPoint 2 0] = None.
Proof.
  apply (getHull_all_collinear [mkPoint 1 0; mkPoint 0 0; mkPoint 2 0]).
  - intros a b c Ha Hb Hc. simpl in Ha, Hb, Hc.
    destruct Ha as [<- | [<- | [<- | []]]];
      destruct Hb as [<- | [<- | [<- | []]]];
      destruct Hc as [<- | [<- | [<- | []]]]; reflexivity.
  - simpl. lia.
Defined.

(** X6.  If the point that follows [points[p]] in the input (cyclically)
    has the same coordinates as [points[p]], the inner loop keeps it as
    the next vertex, whatever the other points are: [orientation] is 0
    whenever its first and last points coincide, also under overflow. *)
Theorem next_vertex_duplicate (points : list Point) (p : nat) :
  pt points ((p + 1) mod length points) = pt points p ->
  next_vertex points p = ((p + 1) mod length points)%nat.
Proof.
  intros Hdup. unfold next_vertex.
  apply fold_left_fixed. intros i _.
  unfold candidate_step. rewrite Hdup.
  rewrite orientation_collinear; [reflexivity |].
  unfold cross. ring.
Qed.

Lemma next_vertex_duplicate_witness :
  next_vertex [mkPoint 0 0; mkPoint 0 0; mkPoint 5 1; mkPoint 3 (-4)] 0
  = ((0 + 1) mod 4)%nat.
Proof.
  apply (next_vertex_duplicate
           [mkPoint 0 0; mkPoint 0 0; mkPoint 5 1; mkPoint 3 (-4)] 0).
  reflexivity.
Defined.

End ConvexHullMore.

(** ** Segment intersection, further *)

Lemma Int32_wrap_bounds (z : Z) : Int32.in_range (Int32.wrap z).
Proof.
  unfold Int32.in_range, Int32.wrap, Int32.min_int, Int32.max_int,
    Int32.modulus.
  pose proof (Z.mod_pos_bound (z + 2 ^ 31) (2 ^ 32) ltac:(lia)).
  lia.
Qed.

(** Negation in [int]: exact except at [INT_MIN]. *)
Lemma Int32_wrap_opp (z : Z) :
  Int32.wrap z <> Int32.min_int ->
  Int32.wrap (- z) = - Int32.wrap z.
Proof.
  intros Hmin.
  rewrite <- (Int32_wrap_in_range (- Int32.wrap z)).
  - apply Int32_wrap_congr.
    rewrite <- (Z.sub_0_l z), <- (Z.sub_0_l (Int32.wrap z)).
    rewrite Zminus_mod, (Zminus_mod 0 (Int32.wrap z)), Int32_wrap_mod.
    reflexivity.
  - pose proof (Int32_wrap_bounds z) as Hb.
    unfold Int32.in_range, Int32.min_int, Int32.max_int in *. lia.
Qed.

Section SegmentIntersectionMore.

Import SegmentIntersection.

(** With or without overflow, [direction] is its expression over the
    integers reduced to the range of [int]. *)
Lemma direction_wrap (p q r : Point) :
  direction p q r = Int32.wrap (direction_Z p q r).
Proof.
  unfold direction, direction_Z.
  unfold Int32.sub at 2 3 4 5.
  rewrite !Int32_mul_wrap, Int32_sub_wrap. reflexivity.
Qed.

Lemma direction_first (p q : Point) : direction p q p = 0.
Proof.
  rewrite direction_wrap. unfold direction_Z.
  replace ((y p - y p) * (x q - x p) - (x p - x p) * (y q - y p)) with 0
    by ring.
  reflexivity.
Qed.

Lemma direction_second (p q : Point) : direction p q q = 0.
Proof.
  rewrite direction_wrap. unfold direction_Z.
  replace ((y q - y p) * (x q - x p) - (x q - x p) * (y q - y p)) with 0
    by ring.
  reflexivity.
Qed.

Lemma direction_point_segment (p r : Point) : direction p p r = 0.
Proof.
  rewrite direction_wrap. unfold direction_Z.
  replace ((y r - y p) * (x p - x p) - (x r - x p) * (y p - y p)) with 0
    by ring.
  reflexivity.
Qed.

Lemma on_segment_first (p q : Point) : on_segment p q p = true.
Proof.
  unfold on_segment.
  rewrite !andb_true_iff, !Z.leb_le. lia.
Qed.

Lemma on_segment_second (p q : Point) : on_segment p q q = true.
Proof.
  unfold on_segment.
  rewrite !andb_true_iff, !Z.leb_le. lia.
Qed.

Lemma on_segment_point (p r : Point) :
  on_segment p p r = true <-> r = p.
Proof.
  unfold on_segment.
  rewrite !andb_true_iff, !Z.leb_le. split.
  - intros H. destruct p as [px py], r as [rx ry]. simpl in *.
    f_equal; lia.
  - intros ->. lia.
Qed.

(** [intersect] as one boolean expression. *)
Lemma intersect_cases (p1 p2 p3 p4 : Point) :
  intersect p1 p2 p3 p4 =
    general_case (direction p3 p4 p1) (direction p3 p4 p2)
                 (direction p1 p2 p3) (direction p1 p2 p4)
    || (direction p3 p4 p1 =? 0) && on_segment p3 p4 p1
    || (direction p3 p4 p2 =? 0) && on_segment p3 p4 p2
    || (direction p1 p2 p3 =? 0) && on_segment p1 p2 p3
    || (direction p1 p2 p4 =? 0) && on_segment p1 p2 p4.
Proof.
  unfold intersect, intersect_exit.
  repeat match goal with
         | |- context [if ?b then _ else _] => destruct b
         end; reflexivity.
Qed.

(** X7.  Two segments that share an endpoint intersect: [intersect]
    returns true whenever an endpoint of the second segment equals an
    endpoint of the first, for all coordinates (overflow included). *)
Theorem intersect_shared_endpoint (p1 p2 p3 p4 : Point) :
  p3 = p1 \/ p3 = p2 \/ p4 = p1 \/ p4 = p2 ->
  intersect p1 p2 p3 p4 = true.
Proof.
  intros H. rewrite intersect_cases.
  destruct H as [-> | [-> | [-> | ->]]].
  - rewrite (direction_first p1 p2), (on_segment_first p1 p2).
    cbn [Z.eqb andb]. rewrite orb_true_r. now rewrite orb_true_l.
  - rewrite (direction_second p1 p2), (on_segment_second p1 p2).
    cbn [Z.eqb andb]. rewrite orb_true_r. now rewrite orb_true_l.
  - rewrite (direction_first p1 p2), (on_segment_first p1 p2).
    cbn [Z.eqb andb]. now rewrite orb_true_r.
  - rewrite (direction_second p1 p2), (on_segment_second p1 p2).
    cbn [Z.eqb andb]. now rewrite orb_true_r.
Qed.

Lemma intersect_shared_endpoint_witness :
  intersect (mkPoint 0 0) (mkPoint 4 1) (mkPoint 4 1) (mkPoint 7 (-3)) = true.
Proof.
  apply (intersect_shared_endpoint
           (mkPoint 0 0) (mkPoint 4 1) (mkPoint 4 1) (mkPoint 7 (-3))).
  right. left. reflexivity.
Defined.

Lemma general_case_point (d : Z) : general_case 0 0 d d = false.
Proof.
  unfold general_case. cbn [Z.ltb Z.gtb Z.compare andb orb].
  destruct (Z.gtb_spec d 0), (Z.ltb_spec d 0); try reflexivity. lia.
Qed.

Lemma general_case_point_first (d : Z) : general_case d d 0 0 = false.
Proof.
  unfold general_case.
  destruct (Z.gtb_spec d 0), (Z.ltb_spec d 0); try reflexivity; lia.
Qed.

(** X8.  When one of the two segments is a single point, [intersect] is
    the point-on-segment test of the code: it returns true exactly when
    the [direction] value of the point against the other segment is zero
    and the point lies in that segment's bounding box. *)
Theorem intersect_point_segment (p q r : Point) :
  intersect p q r r = (direction p q r =? 0) && on_segment p q r /\
  intersect r r p q = (direction p q r =? 0) && on_segment p q r.
Proof.
  split; rewrite intersect_cases, !direction_point_segment.
  - rewrite general_case_point. cbn [Z.eqb orb andb].
    destruct (on_segment r r p) eqn:E1.
    { apply on_segment_point in E1 as ->.
      now rewrite direction_first, on_segment_first. }
    destruct (on_segment r r q) eqn:E2.
    { apply on_segment_point in E2 as ->.
      now rewrite direction_second, on_segment_second. }
    cbn [orb]. apply orb_diag.
  - rewrite general_case_point_first. cbn [Z.eqb orb andb].
    destruct ((direction p q r =? 0) && on_segment p q r) eqn:E.
    { reflexivity. }
    cbn [orb].
    destruct (on_segment r r p) eqn:E1.
    { apply on_segment_point in E1 as ->.
      now rewrite direction_first, on_segment_first in E. }
    destruct (on_segment r r q) eqn:E2.
    { apply on_segment_point in E2 as ->.
      now rewrite direction_second, on_segment_second in E. }
    reflexivity.
Qed.


(** X9.  [intersect] never misses a proper crossing: whenever both pairs
    of direction values have strictly opposite signs, the general case
    applies and true is returned.  The unparenthesised condition only
    adds positive answers. *)
Theorem intersect_of_opposite_sides (p1 p2 p3 p4 : Point) :
  opposite_sides_both (direction p3 p4 p1) (direction p3 p4 p2)
                      (direction p1 p2 p3) (direction p1 p2 p4) = true ->
  intersect_exit p1 p2 p3 p4 = General /\ intersect p1 p2 p3 p4 = true.
Proof.
  intros H. apply opposite_sides_general_case in H.
  apply intersect_exit_General in H.
  split; [exact H |]. unfold intersect. now rewrite H.
Qed.

Lemma intersect_of_opposite_sides_witness :
  intersect_exit (mkPoint 0 0) (mkPoint 2 2) (mkPoint 0 2) (mkPoint 2 0)
    = General /\
  intersect (mkPoint 0 0) (mkPoint 2 2) (mkPoint 0 2) (mkPoint 2 0) = true.
Proof.
  apply (intersect_of_opposite_sides
           (mkPoint 0 0) (mkPoint 2 2) (mkPoint 0 2) (mkPoint 2 0)).
  reflexivity.
Defined.

(** X10.  [on_segment] does not depend on the order of the segment's
    endpoints and holds of both endpoints; it is a bounding-box test
    only: the corner [(p.x, q.y)] of the box passes it as well. *)
Theorem on_segment_bounding_box (p q r : Point) :
  on_segment p q r = on_segment q p r /\
  on_segment p q p = true /\
  on_segment p q q = true /\
  on_segment p q (mkPoint (x p) (y q)) = true.
Proof.
  split; [| split; [apply on_segment_first | split;
                    [apply on_segment_second |]]].
  - unfold on_segment.
    now rewrite (Z.min_comm (x p)), (Z.max_comm (x p)),
      (Z.min_comm (y p)), (Z.max_comm (y p)).
  - unfold on_segment. cbn [x y].
    rewrite !andb_true_iff, !Z.leb_le. lia.
Qed.

Lemma direction_swap (p q r : Point) :
  direction p q r <> Int32.min_int ->
  direction q p r = - direction p q r /\
  direction p r q = - direction p q r.
Proof.
  rewrite !direction_wrap. intros Hmin.
  rewrite <- (Int32_wrap_opp _ Hmin).
  split; f_equal; unfold direction_Z; ring.
Qed.

(** X11.  Exchanging the two endpoints of the segment, or the second
    endpoint and the tested point, negates [direction], unless the value
    is [INT_MIN]. *)
Theorem direction_antisymmetric (p q r : Point) :
  direction p q r <> Int32.min_int ->
  direction q p r = - direction p q r /\
  direction p r q = - direction p q r.
Proof. apply direction_swap. Qed.

Lemma direction_antisymmetric_witness :
  direction (mkPoint 2 0) (mkPoint 0 0) (mkPoint 1 3)
    = - direction (mkPoint 0 0) (mkPoint 2 0) (mkPoint 1 3) /\
  direction (mkPoint 0 0) (mkPoint 1 3) (mkPoint 2 0)
    = - direction (mkPoint 0 0) (mkPoint 2 0) (mkPoint 1 3).
Proof.
  apply (direction_antisymmetric (mkPoint 0 0) (mkPoint 2 0) (mkPoint 1 3)).
  vm_compute. discriminate.
Defined.


Lemma opp_ltb_0 (d : Z) : (- d <? 0) = (d >? 0).
Proof.
  rewrite Z.gtb_ltb.
  destruct (Z.ltb_spec (- d) 0), (Z.ltb_spec 0 d); reflexivity || lia.
Qed.

Lemma opp_gtb_0 (d : Z) : (- d >? 0) = (d <? 0).
Proof.
  rewrite Z.gtb_ltb.
  destruct (Z.ltb_spec 0 (- d)), (Z.ltb_spec d 0); reflexivity || lia.
Qed.

Lemma opp_eqb_0 (d : Z) : (- d =? 0) = (d =? 0).
Proof.
  destruct (Z.eqb_spec (- d) 0), (Z.eqb_spec d 0); reflexivity || lia.
Qed.

Lemma general_case_opp (d1 d2 d3 d4 : Z) :
  general_case (- d2) (- d1) (- d4) (- d3) = general_case d1 d2 d3 d4.
Proof.
  unfold general_case. rewrite !opp_ltb_0, !opp_gtb_0.
  destruct (d1 <? 0), (d2 >? 0), (d1 >? 0), (d2 <? 0),
    (d3 <? 0), (d4 >? 0), (d3 >? 0), (d4 <? 0); reflexivity.
Qed.

Lemma on_segment_comm (p q r : Point) : on_segment p q r = on_segment q p r.
Proof.
  unfold on_segment.
  now rewrite (Z.min_comm (x p)), (Z.max_comm (x p)),
    (Z.min_comm (y p)), (Z.max_comm (y p)).
Qed.

(** X12.  Reversing both segments at once does not change the answer of
    [intersect], provided no direction value is [INT_MIN]. *)
Theorem intersect_reverse_both (p1 p2 p3 p4 : Point) :
  direction p3 p4 p1 <> Int32.min_int ->
  direction p3 p4 p2 <> Int32.min_int ->
  direction p1 p2 p3 <> Int32.min_int ->
  direction p1 p2 p4 <> Int32.min_int ->
  intersect p2 p1 p4 p3 = intersect p1 p2 p3 p4.
Proof.
  intros H1 H2 H3 H4. rewrite !intersect_cases.
  destruct (direction_swap _ _ _ H1) as [-> _].
  destruct (direction_swap _ _ _ H2) as [-> _].
  destruct (direction_swap _ _ _ H3) as [-> _].
  destruct (direction_swap _ _ _ H4) as [-> _].
  rewrite general_case_opp, !opp_eqb_0.
  rewrite (on_segment_comm p4 p3), (on_segment_comm p4 p3 p1),
    (on_segment_comm p2 p1), (on_segment_comm p2 p1 p3).
  destruct (general_case _ _ _ _); [reflexivity |].
  cbn [orb].
  destruct ((direction p3 p4 p1 =? 0) && on_segment p3 p4 p1),
    ((direction p3 p4 p2 =? 0) && on_segment p3 p4 p2),
    ((direction p1 p2 p3 =? 0) && on_segment p1 p2 p3),
    ((direction p1 p2 p4 =? 0) && on_segment p1 p2 p4); reflexivity.
Qed.

Lemma intersect_reverse_both_witness :
  intersect a2 a1 b2 b1 = intersect a1 a2 b1 b2.
Proof.
  apply (intersect_reverse_both a1 a2 b1 b2);
    vm_compute; discriminate.
Defined.

End SegmentIntersectionMore.

(** ** Projectile motion, further *)

Section DoubleSigns.

Import ground_to_ground_projectile_motion.

(** The sign of a rounded result is the sign given to the rounding. *)
Lemma binary_round_aux_opp (s : bool) (m e : Z) (l : location) :
  binary_round_aux prec emax (negb s) m e l =
  fopp (binary_round_aux prec emax s m e l).
Proof.
  unfold binary_round_aux.
  destruct (shr_fexp prec emax m e l) as [mrs' e'].
  destruct (shr_fexp prec emax _ e' loc_Exact) as [mrs'' e''].
  destruct (shr_m mrs'') as [| m' | m']; try reflexivity.
  destruct (e'' <=? emax - prec); reflexivity.
Qed.

Lemma fmul_opp_l (a b : double) : fmul (fopp a) b = fopp (fmul a b).
Proof.
  destruct a as [sa | sa | | sa ma ea], b as [sb | sb | | sb mb eb];
    unfold fmul, fopp; cbn [SFmul SFopp];
    rewrite <- ?negb_xorb_l; try reflexivity.
  apply binary_round_aux_opp.
Qed.

Lemma fmul_opp_r (a b : double) : fmul a (fopp b) = fopp (fmul a b).
Proof.
  destruct a as [sa | sa | | sa ma ea], b as [sb | sb | | sb mb eb];
    unfold fmul, fopp; cbn [SFmul SFopp];
    rewrite <- ?negb_xorb_r; try reflexivity.
  apply binary_round_aux_opp.
Qed.

Lemma fdiv_opp_l (a b : double) : fdiv (fopp a) b = fopp (fdiv a b).
Proof.
  destruct a as [sa | sa | | sa ma ea], b as [sb | sb | | sb mb eb];
    unfold fdiv, fopp; cbn [SFdiv SFopp];
    rewrite <- ?negb_xorb_l; try reflexivity.
  destruct (SFdiv_core_binary prec emax (Z.pos ma) ea (Z.pos mb) eb)
    as [[mz ez] lz].
  apply binary_round_aux_opp.
Qed.

Lemma fdiv_opp_r (a b : double) : fdiv a (fopp b) = fopp (fdiv a b).
Proof.
  destruct a as [sa | sa | | sa ma ea], b as [sb | sb | | sb mb eb];
    unfold fdiv, fopp; cbn [SFdiv SFopp];
    rewrite <- ?negb_xorb_r; try reflexivity.
  destruct (SFdiv_core_binary prec emax (Z.pos ma) ea (Z.pos mb) eb)
    as [[mz ez] lz].
  apply binary_round_aux_opp.
Qed.

Lemma negated_fopp (a : double) : negated a (fopp a).
Proof. destruct a; reflexivity. Qed.

Lemma fmul_nan_l (a : double) : fmul S754_nan a = S754_nan.
Proof. reflexivity. Qed.

Lemma fmul_nan_r (a : double) : fmul a S754_nan = S754_nan.
Proof. destruct a; reflexivity. Qed.

Lemma fdiv_nan_l (a : double) : fdiv S754_nan a = S754_nan.
Proof. reflexivity. Qed.

Lemma fdiv_nan_r (a : double) : fdiv a S754_nan = S754_nan.
Proof. destruct a; reflexivity. Qed.

Lemma fmul_zero_finite (s : bool) (a : double) :
  is_finite a = true -> exists s', fmul (S754_zero s) a = S754_zero s'.
Proof.
  destruct a as [sa | sa | | sa ma ea]; try discriminate; intros _;
    unfold fmul; simpl; eauto.
Qed.

End DoubleSigns.

Section ProjectileMore.

Import ground_to_ground_projectile_motion.

Variables sin cos : double -> double.
Variable pow : double -> double -> double.

(** X13.  Reversing the sign of the initial velocity reverses the sign of
    the results of [time_of_flight] and of [horizontal_range] and changes
    nothing else, whatever [sin] and [cos] return; so does reversing the
    sign of the gravity, of the time, or of the angle given to
    [degrees_to_radians].  A result that is a NaN stays a NaN, of
    whatever sign bit. *)
Theorem projectile_sign_symmetry (v angle gravity time : double) :
  negated (time_of_flight sin v angle gravity)
          (time_of_flight sin (fopp v) angle gravity) /\
  negated (time_of_flight sin v angle gravity)
          (time_of_flight sin v angle (fopp gravity)) /\
  negated (horizontal_range cos v angle time)
          (horizontal_range cos (fopp v) angle time) /\
  negated (horizontal_range cos v angle time)
          (horizontal_range cos v angle (fopp time)) /\
  negated (degrees_to_radians angle) (degrees_to_radians (fopp angle)).
Proof.
  unfold time_of_flight, horizontal_range, degrees_to_radians.
  repeat apply conj.
  - rewrite fmul_opp_l, fmul_opp_r, fdiv_opp_l. apply negated_fopp.
  - rewrite fdiv_opp_r. apply negated_fopp.
  - rewrite !fmul_opp_l. apply negated_fopp.
  - rewrite fmul_opp_r. apply negated_fopp.
  - rewrite fmul_opp_l. apply negated_fopp.
Qed.

(** X14.  A NaN argument gives a NaN result: a NaN velocity or gravity
    in [time_of_flight], a NaN velocity or time in [horizontal_range], a
    NaN gravity in [max_height], a NaN angle in [degrees_to_radians]. *)
Theorem projectile_nan_propagates (v angle gravity time : double) :
  time_of_flight sin S754_nan angle gravity = S754_nan /\
  time_of_flight sin v angle S754_nan = S754_nan /\
  horizontal_range cos S754_nan angle time = S754_nan /\
  horizontal_range cos v angle S754_nan = S754_nan /\
  max_height sin pow v angle S754_nan = S754_nan /\
  degrees_to_radians S754_nan = S754_nan.
Proof.
  unfold time_of_flight, horizontal_range, max_height.
  repeat apply conj.
  - now rewrite fmul_nan_l, fmul_nan_r, fdiv_nan_l.
  - apply fdiv_nan_r.
  - now rewrite !fmul_nan_l.
  - apply fmul_nan_r.
  - now rewrite fmul_nan_r, fdiv_nan_r.
  - reflexivity.
Qed.

Hypothesis sin_zero : forall s : bool, sin (S754_zero s) = S754_zero s.
Hypothesis pow_zero_two : forall s : bool, pow (S754_zero s) two = zero.

(** X15.  With gravity zero the division is 0/0 at launch angle 0: for
    every finite initial velocity [time_of_flight] and [max_height]
    return NaN, not 0. *)
Theorem zero_gravity_zero_angle_nan (v : double) (sg : bool) :
  is_finite v = true ->
  time_of_flight sin v zero (S754_zero sg) = S754_nan /\
  max_height sin pow v zero (S754_zero sg) = S754_nan.
Proof.
  intros Hfin.
  unfold time_of_flight, max_height, zero.
  rewrite degrees_to_radians_zero, sin_zero.
  destruct (fmul_finite_zero v false Hfin) as [s' ->].
  rewrite fmul_two_zero, pow_zero_two. split; reflexivity.
Qed.

(** X16.  With initial velocity zero, whatever the angle (as long as
    [sin] and [cos] return finite values), [time_of_flight] and
    [max_height] return 0 for a positive gravity and [horizontal_range]
    returns 0 for a finite time. *)
Theorem zero_velocity_gives_zero (sv : bool) (angle gravity time : double) :
  is_finite (sin (degrees_to_radians angle)) = true ->
  is_finite (cos (degrees_to_radians angle)) = true ->
  is_double gravity -> fltb zero gravity = true ->
  is_finite time = true ->
  feqb (time_of_flight sin (S754_zero sv) angle gravity) zero = true /\
  feqb (max_height sin pow (S754_zero sv) angle gravity) zero = true /\
  feqb (horizontal_range cos (S754_zero sv) angle time) zero = true.
Proof.
  intros Hsin Hcos Hg Hpos Htime.
  unfold time_of_flight, max_height, horizontal_range.
  destruct (fmul_zero_finite sv _ Hsin) as [s1 ->].
  destruct (fmul_zero_finite sv _ Hcos) as [s2 ->].
  destruct (fmul_zero_finite s2 _ Htime) as [s3 ->].
  rewrite fmul_two_zero, pow_zero_two.
  rewrite (fdiv_zero_positive s1 gravity Hpos).
  unfold zero.
  rewrite (fdiv_zero_positive false _ (fmul_two_positive gravity Hg Hpos)).
  repeat split; apply feqb_zero.
Qed.

End ProjectileMore.

Section ProjectileMoreWitnesses.

Import ground_to_ground_projectile_motion.

Lemma zero_gravity_zero_angle_nan_witness :
  time_of_flight (fun a => a) (of_Z 5) zero (S754_zero false) = S754_nan /\
  max_height (fun a => a) (fun a _ => fmul a a) (of_Z 5) zero
             (S754_zero false) = S754_nan.
Proof.
  apply (zero_gravity_zero_angle_nan (fun a => a) (fun a _ => fmul a a)).
  - intros s. reflexivity.
  - intros s. destruct s; reflexivity.
  - reflexivity.
Defined.

Lemma zero_velocity_gives_zero_witness :
  feqb (time_of_flight (fun a => a) zero (of_Z 40) GRAVITY) zero = true /\
  feqb (max_height (fun a => a) (fun a _ => fmul a a) zero (of_Z 40) GRAVITY)
       zero = true /\
  feqb (horizontal_range (fun _ => one) zero (of_Z 40) (of_Z 3)) zero = true.
Proof.
  apply (zero_velocity_gives_zero
           (fun a => a) (fun _ => one) (fun a _ => fmul a a)).
  - intros s. destruct s; reflexivity.
  - vm_compute. reflexivity.
  - reflexivity.
  - vm_compute. reflexivity.
  - reflexivity.
  - vm_compute. reflexivity.
Defined.

End ProjectileMoreWitnesses.
